(** * RingBuffer: a shallow embedding of [src/ring-buffer.ts]

    The class [RingBuffer<T>] keeps three fields: [buffer] (a JavaScript
    array), [size] (the capacity) and [pos] (the next write position).  Its
    methods are embedded below as computations of a small state-and-exception
    monad over a record with these three fields, one definition per method,
    statement by statement.

    JavaScript data is modelled as the program uses it:
    - numbers are integers ([Z]) or [NaN]; [NaN] is what [x % 0] evaluates
      to, and it is the only non-integer the class can compute from integer
      arguments.  Arguments of the methods ([index], [count], [n], [size])
      are integers;
    - an array is its list of elements, a hole or [undefined] element being
      [None], together with its non-index properties (an assignment
      [a[k] = v] with [k] negative or [NaN] creates such a property and leaves
      the elements alone);
    - [a[k] = v] past the end of an array extends it with holes;
    - [slice], [splice] and [concat] follow ECMAScript: relative indices are
      clamped, [NaN] counts as [0];
    - integers are exact and every array index is a valid one, as they are
      in JavaScript below [2^53] and [2^32 - 1]. *)

From Stdlib Require Import String ZArith List Bool Lia Permutation.
Import ListNotations.
Local Open Scope Z_scope.

(** ** JavaScript numbers *)

Inductive number : Type :=
| Num (z : Z)
| NaN.

Definition num_add (a b : number) : number :=
  match a, b with
  | Num x, Num y => Num (x + y)
  | _, _ => NaN
  end.

Definition num_sub (a b : number) : number :=
  match a, b with
  | Num x, Num y => Num (x - y)
  | _, _ => NaN
  end.

(** [a % b]: the sign follows the dividend; [x % 0] is [NaN]. *)
Definition num_rem (a b : number) : number :=
  match a, b with
  | Num x, Num y => if y =? 0 then NaN else Num (Z.rem x y)
  | _, _ => NaN
  end.

(** [Math.max(a, b)]. *)
Definition num_max (a b : number) : number :=
  match a, b with
  | Num x, Num y => Num (Z.max x y)
  | _, _ => NaN
  end.

(** [a <= b]: every comparison with [NaN] is false. *)
Definition num_le (a b : number) : bool :=
  match a, b with
  | Num x, Num y => x <=? y
  | _, _ => false
  end.

Definition number_eqb (a b : number) : bool :=
  match a, b with
  | Num x, Num y => x =? y
  | NaN, NaN => true
  | _, _ => false
  end.

(** ** JavaScript arrays *)

Section Arrays.
Context {T : Type}.

(** The elements of an array; [None] is a hole or [undefined]. *)
Definition elements : Type := list (option T).

Definition len (l : elements) : Z := Z.of_nat (List.length l).

(** The relative index of [slice] and [splice]: [NaN] counts as [0], a
    negative index counts from the end, and the result is clamped to
    [0 .. len]. *)
Definition rel_index (n : Z) (k : number) : Z :=
  match k with
  | NaN => 0
  | Num z => if z <? 0 then Z.max (n + z) 0 else Z.min z n
  end.

(** [l.slice(start)]. *)
Definition slice_from (l : elements) (start : number) : elements :=
  skipn (Z.to_nat (rel_index (len l) start)) l.

(** [l.slice(start, stop)]. *)
Definition slice (l : elements) (start stop : number) : elements :=
  let k := rel_index (len l) start in
  let final := rel_index (len l) stop in
  firstn (Z.to_nat (final - k)) (skipn (Z.to_nat k) l).

(** [l.splice(start, count)]: the removed elements and what is left of
    [l]. *)
Definition splice (l : elements) (start count : Z) : elements * elements :=
  let k := rel_index (len l) (Num start) in
  let dc := Z.min (Z.max count 0) (len l - k) in
  (firstn (Z.to_nat dc) (skipn (Z.to_nat k) l),
   firstn (Z.to_nat k) l ++ skipn (Z.to_nat (k + dc)) l).

(** Writing element [i]: overwrite, append, or extend with holes. *)
Fixpoint set_index (l : elements) (i : nat) (v : T) : elements :=
  match i, l with
  | O, [] => [Some v]
  | O, _ :: r => Some v :: r
  | S j, [] => None :: set_index [] j v
  | S j, x :: r => x :: set_index r j v
  end.

(** An array object: its elements and its non-index properties, the
    latest assignment first. *)
Record jsarray : Type := {
  elems : elements;
  props : list (number * T)
}.

(** A fresh array with the given elements, as [[]], [slice] and [concat]
    return. *)
Definition new_array (l : elements) : jsarray :=
  {| elems := l; props := [] |}.

Fixpoint prop_get (ps : list (number * T)) (k : number) : option T :=
  match ps with
  | [] => None
  | (k', v) :: r => if number_eqb k k' then Some v else prop_get r k
  end.

(** [a[k]]. *)
Definition array_get (a : jsarray) (k : number) : option T :=
  match k with
  | Num z => if 0 <=? z then nth (Z.to_nat z) (elems a) None
             else prop_get (props a) k
  | NaN => prop_get (props a) k
  end.

(** [a[k] = v]. *)
Definition array_set (a : jsarray) (k : number) (v : T) : jsarray :=
  match k with
  | Num z => if 0 <=? z
             then {| elems := set_index (elems a) (Z.to_nat z) v;
                     props := props a |}
             else {| elems := elems a; props := (k, v) :: props a |}
  | NaN => {| elems := elems a; props := (k, v) :: props a |}
  end.

End Arrays.

Arguments elements : clear implicits.
Arguments jsarray : clear implicits.

(** ** The class *)

Inductive error : Type :=
| RangeError (msg : string)
| TypeError (msg : string).

(** How a call ends: normally with a value, or by throwing. *)
Inductive completion (A : Type) : Type :=
| Normal (a : A)
| Throw (e : error).

Arguments Normal {A} a.
Arguments Throw {A} e.

Module RingBuffer.
Section Class.
Context {T : Type}.

(** The fields of an instance. *)
Record t : Type := {
  buffer : jsarray T;
  size : Z;
  pos : number
}.

(** A method body: it runs on [this] and ends with a completion and the
    instance as it left it. *)
Definition M (A : Type) : Type := t -> completion A * t.

Definition ret {A} (a : A) : M A := fun this => (Normal a, this).

Definition bind {A B} (m : M A) (k : A -> M B) : M B :=
  fun this =>
    match m this with
    | (Normal a, this') => k a this'
    | (Throw e, this') => (Throw e, this')
    end.

Definition throw {A} (e : error) : M A := fun this => (Throw e, this).

Definition this_buffer : M (jsarray T) := fun this => (Normal (buffer this), this).
Definition this_size : M Z := fun this => (Normal (size this), this).
Definition this_pos : M number := fun this => (Normal (pos this), this).

Definition set_buffer (b : jsarray T) : M unit :=
  fun this => (Normal tt, {| buffer := b; size := size this; pos := pos this |}).
Definition set_size (n : Z) : M unit :=
  fun this => (Normal tt, {| buffer := buffer this; size := n; pos := pos this |}).
Definition set_pos (p : number) : M unit :=
  fun this => (Normal tt, {| buffer := buffer this; size := size this; pos := p |}).

(** The completion of a call and the instance after it. *)
Definition result {A} (m : M A) (this : t) : completion A := fst (m this).
Definition after {A} (m : M A) (this : t) : t := snd (m this).

Notation "x <- m ;; k" := (bind m (fun x => k))
  (at level 61, m at next level, right associativity).
Notation "m ;; k" := (bind m (fun _ => k))
  (at level 61, right associativity).

Definition negative_size : error :=
  RangeError "The size does not allow negative values.".

(** [new RingBuffer(size)]: the field initialisers, then the body. *)
Definition constructor (sz : Z) : completion t :=
  if sz <? 0 then Throw negative_size
  else Normal {| buffer := new_array []; size := sz; pos := Num 0 |}.

Definition getSize : M Z := this_size.

Definition getPos : M number := this_pos.

Definition getBufferLength : M Z :=
  b <- this_buffer ;; ret (len (elems b)).

(** The body of the [forEach] callback of [add]. *)
Definition add_item (item : T) : M unit :=
  b <- this_buffer ;;
  p <- this_pos ;;
  set_buffer (array_set b p item) ;;
  p <- this_pos ;;
  sz <- this_size ;;
  set_pos (num_rem (num_add p (Num 1)) (Num sz)).

Fixpoint forEach {A} (f : A -> M unit) (l : list A) : M unit :=
  match l with
  | [] => ret tt
  | x :: r => f x ;; forEach f r
  end.

Definition add (items : list T) : M unit := forEach add_item items.

Definition get (index : Z) : M (option T) :=
  b <- this_buffer ;;
  let index := if index <? 0 then index + len (elems b) else index in
  if (index <? 0) || (index >? len (elems b)) then ret None
  else
    sz <- this_size ;;
    if len (elems b) <? sz then ret (array_get b (Num index))
    else
      p <- this_pos ;;
      ret (array_get b (num_rem (num_add p (Num index)) (Num sz))).

Definition getFirst : M (option T) := get 0.

Definition getLast : M (option T) := get (-1).

Definition toArray : M (elements T) :=
  b <- this_buffer ;;
  p <- this_pos ;;
  ret (slice_from (elems b) p ++ slice (elems b) (Num 0) p).

Definition firstN (n : Z) : M (elements T) :=
  b <- this_buffer ;;
  p <- this_pos ;;
  sz <- this_size ;;
  let firstPart := slice (elems b) p (num_add p (Num n)) in
  let remaining := num_sub (num_add p (Num n)) (Num sz) in
  if num_le remaining (Num 0) then ret firstPart
  else ret (firstPart ++ slice (elems b) (Num 0) remaining).

Definition lastN (n : Z) : M (elements T) :=
  b <- this_buffer ;;
  p <- this_pos ;;
  sz <- this_size ;;
  let firstPart :=
    slice (elems b) (num_max (Num 0) (num_sub p (Num n))) p in
  let remaining := num_sub (Num n) p in
  if num_le remaining (Num 0) then ret firstPart
  else ret (slice (elems b) (num_sub (Num sz) remaining) (Num sz)
              ++ firstPart).

(** [fromArray(data)] with [resize] false, as [remove] and [resize] call
    it: the statement [if (resize) ...] does nothing.  [data] is an array
    by its type, so the [TypeError] is never thrown. *)
Definition fromArray_false (data : elements T) : M unit :=
  sz <- this_size ;;
  if sz =? 0 then ret tt
  else
    set_buffer (new_array (slice_from data (Num (- sz)))) ;;
    b <- this_buffer ;;
    sz <- this_size ;;
    set_pos (num_rem (Num (len (elems b))) (Num sz)).

Definition clear : M unit :=
  set_buffer (new_array []) ;;
  set_pos (Num 0).

Definition resize (newSize : Z) : M unit :=
  if newSize <? 0 then throw negative_size
  else
    (if newSize =? 0 then clear
     else
       sz <- this_size ;;
       if negb (newSize =? sz) then
         currentBuffer <- toArray ;;
         fromArray_false (slice_from currentBuffer (Num (- newSize))) ;;
         b <- this_buffer ;;
         set_pos (num_rem (Num (len (elems b))) (Num newSize))
       else ret tt) ;;
    set_size newSize.

Definition fromArray (data : elements T) (rsz : bool) : M unit :=
  (if rsz then resize (len data) else ret tt) ;;
  fromArray_false data.

Definition remove (index count : Z) : M (elements T) :=
  b <- this_buffer ;;
  let index := if index <? 0 then index + len (elems b) else index in
  if (index <? 0) || (index >? len (elems b)) then ret []
  else
    arr <- toArray ;;
    let '(removedItems, arr) := splice arr index count in
    fromArray arr false ;;
    ret removedItems.

Definition removeFirst : M (option T) :=
  r <- remove 0 1 ;; ret (nth 0 r None).

Definition removeLast : M (option T) :=
  r <- remove (-1) 1 ;; ret (nth 0 r None).

Definition isFull : M bool :=
  b <- this_buffer ;; sz <- this_size ;; ret (len (elems b) =? sz).

Definition isEmpty : M bool :=
  b <- this_buffer ;; ret (len (elems b) =? 0).

(** The static [RingBuffer.fromArray(data, size)]. *)
Definition fromArray_static (data : elements T) (sz : Z) : completion t :=
  match constructor sz with
  | Normal ringBuffer =>
      match fromArray data (sz =? 0) ringBuffer with
      | (Normal _, ringBuffer') => Normal ringBuffer'
      | (Throw e, _) => Throw e
      end
  | Throw e => Throw e
  end.

End Class.
End RingBuffer.

Arguments RingBuffer.t : clear implicits.
Arguments RingBuffer.M : clear implicits.

Import RingBuffer.

(** ** Vocabulary of the statements *)

(** The last [n] elements of [l] (all of [l] when it has fewer). *)
Definition suffix {A} (n : Z) (l : list A) : list A :=
  skipn (length l - Z.to_nat n) l.

(** The index [get] and [remove] work with: a negative [index] counts from
    the end of the [n] stored elements. *)
Definition remap (index n : Z) : Z :=
  if index <? 0 then index + n else index.

Section Vocabulary.
Context {T : Type}.

(** Calls made one after the other on the same instance. *)
Fixpoint calls (ms : list (M T unit)) : M T unit :=
  match ms with
  | [] => ret tt
  | m :: r => bind m (fun _ => calls r)
  end.

(** [holds c s L]: [s] has capacity [c >= 1] and the layout the class
    maintains, with content [L], oldest first.  The array is [back ++ front]
    and [pos] is the length of [back]; the content is [front ++ back]; until
    the buffer is full [front] is empty, so that [pos] is the array's
    length. *)
Definition holds (c : Z) (s : t T) (L : elements T) : Prop :=
  size s = c /\ 0 < c /\
  exists front back,
    L = front ++ back /\
    elems (buffer s) = back ++ front /\
    pos s = Num (len back) /\
    len back < c /\
    (front = [] \/ len L = c).

(** The two shapes of an instance of capacity 0: nothing was added, or
    [add] was called, which stores its first item at index 0 and turns
    [pos] into [NaN]. *)
Definition zero_capacity (s : t T) : Prop :=
  size s = 0 /\
  ((elems (buffer s) = [] /\ pos s = Num 0) \/
   (exists x, elems (buffer s) = [Some x] /\ pos s = NaN)).

Definition invariant (s : t T) : Prop :=
  (exists L, holds (size s) s L) \/ zero_capacity s.

(** The instances a program can build: a constructed one, and what the
    mutating methods make of it, with any arguments, a call that throws
    included. *)
Inductive reachable : t T -> Prop :=
| reach_new c s : constructor c = Normal s -> reachable s
| reach_add items s : reachable s -> reachable (after (add items) s)
| reach_remove index count s :
    reachable s -> reachable (after (remove index count) s)
| reach_removeFirst s : reachable s -> reachable (after removeFirst s)
| reach_removeLast s : reachable s -> reachable (after removeLast s)
| reach_fromArray data rsz s :
    reachable s -> reachable (after (fromArray data rsz) s)
| reach_clear s : reachable s -> reachable (after clear s)
| reach_resize n s : reachable s -> reachable (after (resize n) s).

(** The instances built from [new RingBuffer(c)] by calls of [add]
    alone. *)
Inductive added_from (c : Z) : t T -> Prop :=
| added_new s : constructor c = Normal s -> added_from c s
| added_add items s : added_from c s -> added_from c (after (add items) s).

End Vocabulary.

(** ** Lists: the last elements, slices and element writes *)

Section ListFacts.
Context {T : Type}.
Implicit Types l a b : elements T.

Lemma len_app a b : len (a ++ b) = len a + len b.
Proof. unfold len. rewrite length_app. lia. Qed.

Lemma len_nil : len ([] : elements T) = 0.
Proof. reflexivity. Qed.

Lemma len_cons (x : option T) l : len (x :: l) = len l + 1.
Proof. unfold len. simpl length. lia. Qed.

Lemma len_nonneg l : 0 <= len l.
Proof. unfold len. lia. Qed.

Lemma suffix_all l n : len l <= n -> suffix n l = l.
Proof.
  unfold suffix, len. intros H.
  replace (length l - Z.to_nat n)%nat with O by lia. reflexivity.
Qed.

Lemma len_suffix l n : 0 <= n -> len (suffix n l) = Z.min n (len l).
Proof. unfold suffix, len. intros H. rewrite length_skipn. lia. Qed.

Lemma suffix_app_suffix a b n : suffix n (suffix n a ++ b) = suffix n (a ++ b).
Proof.
  unfold suffix.
  set (k := (length a - Z.to_nat n)%nat).
  rewrite !length_app, length_skipn.
  replace (length a + length b - Z.to_nat n)%nat
    with ((length a - k + length b - Z.to_nat n) + k)%nat by lia.
  rewrite <- skipn_skipn, (skipn_app k a b).
  replace (k - length a)%nat with O by lia. reflexivity.
Qed.

Lemma suffix_suffix l n m : n <= m -> suffix n (suffix m l) = suffix n l.
Proof.
  unfold suffix. intros H. rewrite length_skipn, skipn_skipn.
  f_equal. lia.
Qed.

Lemma slice_from_zero l : slice_from l (Num 0) = l.
Proof. unfold slice_from, rel_index. simpl. rewrite Z.min_l by apply len_nonneg. reflexivity. Qed.

Lemma slice_from_NaN l : slice_from l NaN = l.
Proof. reflexivity. Qed.

Lemma slice_to_NaN l : slice l (Num 0) NaN = [].
Proof. unfold slice, rel_index. simpl. rewrite Z.min_l by apply len_nonneg. reflexivity. Qed.

(** [l.slice(-n)] keeps the last [n] elements. *)
Lemma slice_from_neg l n : 0 < n -> slice_from l (Num (- n)) = suffix n l.
Proof.
  intros H. unfold slice_from, suffix, rel_index, len.
  destruct (Z.ltb_spec (- n) 0); [|lia]. f_equal. lia.
Qed.

Lemma slice_from_app a b : slice_from (a ++ b) (Num (len a)) = b.
Proof.
  unfold slice_from, rel_index. rewrite len_app.
  pose proof (len_nonneg a). pose proof (len_nonneg b).
  destruct (Z.ltb_spec (len a) 0); [lia|].
  rewrite Z.min_l by lia. unfold len. rewrite Nat2Z.id.
  rewrite skipn_app, skipn_all, Nat.sub_diag. reflexivity.
Qed.

Lemma slice_zero_app a b : slice (a ++ b) (Num 0) (Num (len a)) = a.
Proof.
  unfold slice, rel_index. rewrite len_app.
  pose proof (len_nonneg a). pose proof (len_nonneg b). simpl.
  destruct (Z.ltb_spec (len a) 0); [lia|].
  rewrite !Z.min_l by lia. rewrite Z.sub_0_r. unfold len. rewrite Nat2Z.id.
  simpl. rewrite firstn_app, firstn_all, Nat.sub_diag. simpl. apply app_nil_r.
Qed.

Lemma firstn_short a b k :
  (k <= length a)%nat -> firstn k (a ++ b) = firstn k a.
Proof.
  intros H. rewrite firstn_app.
  replace (k - length a)%nat with O by lia. rewrite firstn_O. apply app_nil_r.
Qed.



Lemma skipn_long a b k :
  (length a <= k)%nat -> skipn k (a ++ b) = skipn (k - length a) b.
Proof. intros H. rewrite skipn_app, skipn_all2 by assumption. reflexivity. Qed.



(** Writing at the end of [a] inside [a ++ b]: the first element of [b]
    is replaced, or the element is appended. *)
Lemma set_index_app a b v :
  set_index (a ++ b) (length a) v = a ++ Some v :: tl b.
Proof.
  induction a as [|x a IH]; simpl.
  - destruct b; reflexivity.
  - rewrite IH. reflexivity.
Qed.

End ListFacts.

(** Lengths of appended and consed lists, pushed to the leaves. *)
Ltac lens := rewrite ?len_app, ?len_cons, ?len_nil in *.

(** ** The methods, one step at a time *)

Section Runs.
Context {T : Type}.
Implicit Types (s : t T) (L data : elements T) (v : T).

Lemma add_item_run v s :
  add_item v s =
  (Normal tt,
   {| buffer := array_set (buffer s) (pos s) v;
      size := size s;
      pos := num_rem (num_add (pos s) (Num 1)) (Num (size s)) |}).
Proof. reflexivity. Qed.

Lemma add_nil s : add [] s = (Normal tt, s).
Proof. reflexivity. Qed.

Lemma add_cons v items s :
  add (v :: items) s = add items (after (add_item v) s).
Proof. reflexivity. Qed.

Lemma add_result items s : result (add items) s = Normal tt.
Proof.
  revert s. induction items as [|v items IH]; intros s.
  - reflexivity.
  - unfold result in *. rewrite add_cons. apply IH.
Qed.

Lemma add_app items1 items2 s :
  after (add (items1 ++ items2)) s = after (add items2) (after (add items1) s).
Proof.
  revert s. induction items1 as [|v items1 IH]; intros s.
  - reflexivity.
  - unfold after in *. simpl app. rewrite !add_cons. apply IH.
Qed.

Lemma toArray_run s :
  toArray s =
  (Normal (slice_from (elems (buffer s)) (pos s)
             ++ slice (elems (buffer s)) (Num 0) (pos s)), s).
Proof. reflexivity. Qed.

Lemma fromArray_false_zero data s :
  size s = 0 -> fromArray_false data s = (Normal tt, s).
Proof.
  intros H. unfold fromArray_false, bind, this_size. rewrite H. reflexivity.
Qed.

Lemma fromArray_false_run data s :
  0 < size s ->
  fromArray_false data s =
  (Normal tt,
   {| buffer := new_array (suffix (size s) data);
      size := size s;
      pos := Num (Z.rem (len (suffix (size s) data)) (size s)) |}).
Proof.
  intros H. unfold fromArray_false, bind, this_size.
  destruct (Z.eqb_spec (size s) 0) as [E|E]; [lia|].
  unfold set_buffer, this_buffer, set_pos, num_rem. cbn [buffer size pos].
  rewrite slice_from_neg by assumption.
  destruct (Z.eqb_spec (size s) 0); [lia|]. reflexivity.
Qed.

Lemma fromArray_false_normal data s :
  fromArray_false data s = (Normal tt, after (fromArray_false data) s).
Proof.
  unfold after, fromArray_false, bind, this_size.
  destruct (size s =? 0); reflexivity.
Qed.

Lemma fromArray_flag_false data s :
  fromArray data false s = fromArray_false data s.
Proof. reflexivity. Qed.

Lemma clear_run s :
  clear s = (Normal tt, {| buffer := new_array []; size := size s; pos := Num 0 |}).
Proof. reflexivity. Qed.

Lemma resize_negative n s : n < 0 -> resize n s = (Throw negative_size, s).
Proof.
  intros H. unfold resize. destruct (Z.ltb_spec n 0); [reflexivity|lia].
Qed.

Lemma resize_zero s :
  resize 0 s = (Normal tt, {| buffer := new_array []; size := 0; pos := Num 0 |}).
Proof. reflexivity. Qed.

Lemma resize_same s : 0 < size s -> resize (size s) s = (Normal tt, s).
Proof.
  intros H. unfold resize, bind, this_size.
  destruct (Z.ltb_spec (size s) 0); [lia|].
  destruct (Z.eqb_spec (size s) 0); [lia|].
  rewrite Z.eqb_refl. destruct s; reflexivity.
Qed.

Lemma resize_run n s L :
  0 < n -> n <> size s -> toArray s = (Normal L, s) ->
  resize n s =
  (Normal tt,
   let s1 := after (fromArray_false (suffix n L)) s in
   {| buffer := buffer s1;
      size := n;
      pos := num_rem (Num (len (elems (buffer s1)))) (Num n) |}).
Proof.
  intros Hn Hne Hto. unfold resize, bind at 1 2, this_size.
  destruct (Z.ltb_spec n 0); [lia|].
  destruct (Z.eqb_spec n 0); [lia|].
  destruct (Z.eqb_spec n (size s)); [lia|]. cbn [negb].
  unfold bind at 1. rewrite Hto. unfold bind at 1.
  rewrite slice_from_neg by assumption.
  rewrite fromArray_false_normal. reflexivity.
Qed.

End Runs.

(** ** The layout and the content *)

Section Layout.
Context {T : Type}.
Implicit Types (s : t T) (L data : elements T) (v : T).

Lemma toArray_holds c s L : holds c s L -> toArray s = (Normal L, s).
Proof.
  intros (_ & _ & front & back & HL & He & Hp & _ & _).
  rewrite toArray_run, He, Hp, slice_from_app, slice_zero_app, HL.
  reflexivity.
Qed.

Lemma holds_len c s L :
  holds c s L -> len (elems (buffer s)) = len L /\ len L <= c.
Proof.
  intros (_ & _ & front & back & HL & He & _ & Hlt & Hf).
  rewrite He. rewrite HL in *. rewrite !len_app in *. split; [lia|].
  destruct Hf as [Hf|Hf]; [|lia].
  subst front. unfold len at 1. simpl. lia.
Qed.

Lemma holds_size c s L : holds c s L -> size s = c /\ 0 < c.
Proof. intros (H1 & H2 & _). split; assumption. Qed.

(** A dense array of at most [c] elements with [pos] set to its length
    modulo [c], as [fromArray] and [resize] leave it. *)
Lemma holds_packed c (b : jsarray T) :
  0 < c -> len (elems b) <= c ->
  holds c {| buffer := b; size := c; pos := Num (Z.rem (len (elems b)) c) |}
    (elems b).
Proof.
  intros Hc Hle. pose proof (len_nonneg (elems b)) as H0.
  split; [reflexivity|]. split; [assumption|]. cbn [buffer size pos].
  destruct (Z.eq_dec (len (elems b)) c) as [E|E].
  - exists (elems b), []. rewrite E, Z.rem_same by lia.
    rewrite app_nil_r. repeat split; try reflexivity; try assumption.
    right. reflexivity.
  - exists [], (elems b). rewrite Z.rem_small by lia.
    rewrite app_nil_r. repeat split; try reflexivity; try lia.
    left. reflexivity.
Qed.

Lemma constructor_holds c s : 1 <= c -> constructor c = Normal s -> holds c s [].
Proof.
  intros Hc H. unfold constructor in H.
  destruct (Z.ltb_spec c 0); [lia|]. injection H as <-.
  split; [reflexivity|]. split; [lia|].
  exists [], []. cbn. repeat split; try reflexivity; try lia.
  left. reflexivity.
Qed.

Lemma suffix_snoc_full L (x : option T) c :
  0 < c -> len L = c -> suffix c (L ++ [x]) = tl L ++ [x].
Proof.
  unfold suffix, len. intros Hc HL. rewrite length_app. simpl length.
  replace (length L + 1 - Z.to_nat c)%nat with 1%nat by lia.
  destruct L; simpl in *; [lia|reflexivity].
Qed.

(** One [add]ed item: appended while there is room, else it replaces the
    oldest element. *)
Lemma add_item_holds c s L v :
  holds c s L -> holds c (after (add_item v) s) (suffix c (L ++ [Some v])).
Proof.
  intros (Hs & Hc & front & back & HL & He & Hp & Hlt & Hf).
  pose proof (len_nonneg back) as Hb.
  unfold after. rewrite add_item_run. cbn [snd].
  split; [exact Hs|]. split; [exact Hc|]. cbn [buffer size pos].
  rewrite Hp, Hs. unfold array_set, num_add, num_rem.
  destruct (Z.leb_spec 0 (len back)); [|lia].
  destruct (Z.eqb_spec c 0); [lia|]. cbn [elems].
  unfold len at 1. rewrite Nat2Z.id, He, set_index_app. fold (len back).
  assert (Hcont : suffix c (L ++ [Some v]) = tl front ++ back ++ [Some v]).
  { destruct Hf as [Hf|Hf].
    - subst front. simpl in HL. subst L. simpl.
      apply suffix_all. lens. lia.
    - rewrite suffix_snoc_full by assumption. subst L.
      destruct front as [|y f].
      + simpl in Hf. lia.
      + simpl. rewrite <- app_assoc. reflexivity. }
  rewrite Hcont.
  assert (Hfront : front = [] \/ len front + len back = c).
  { destruct Hf as [Hf|Hf]; [left; assumption|right].
    rewrite <- len_app, <- HL. assumption. }
  clear Hf Hcont HL.
  destruct (Z.eq_dec (len back + 1) c) as [E|E].
  - exists (back ++ [Some v]), []. rewrite E, Z.rem_same by lia.
    assert (Htl : tl front = []).
    { destruct Hfront as [->|Hfl]; [reflexivity|].
      destruct front as [|y [|z f]]; try reflexivity.
      lens. pose proof (len_nonneg f). lia. }
    rewrite Htl, !app_nil_r. cbn [app].
    repeat split; try reflexivity; try assumption.
    right. lens. lia.
  - exists (tl front), (back ++ [Some v]). rewrite Z.rem_small by lia.
    rewrite <- !app_assoc. cbn [app].
    repeat split; try reflexivity.
    + lens. reflexivity.
    + lens. lia.
    + destruct Hfront as [->|Hfl]; [left; reflexivity|right].
      destruct front as [|y f]; cbn [tl]; lens; lia.
Qed.

Lemma add_holds c s L items :
  holds c s L ->
  holds c (after (add items) s) (suffix c (L ++ map Some items)).
Proof.
  revert s L. induction items as [|v items IH]; intros s L H.
  - simpl. rewrite app_nil_r, suffix_all by (apply (holds_len c s L H)).
    exact H.
  - unfold after. rewrite add_cons. fold (after (add items) (after (add_item v) s)).
    apply add_item_holds with (v := v) in H. apply IH in H.
    rewrite suffix_app_suffix, <- app_assoc in H. exact H.
Qed.

Lemma fromArray_false_holds data s :
  0 < size s ->
  holds (size s) (after (fromArray_false data) s) (suffix (size s) data).
Proof.
  intros H. unfold after. rewrite fromArray_false_run by assumption.
  cbn [snd].
  apply (holds_packed (size s) (new_array (suffix (size s) data)) H).
  cbn [elems new_array]. rewrite len_suffix by lia. lia.
Qed.

End Layout.

(** ** What every reachable instance looks like *)

Section Invariant.
Context {T : Type}.
Implicit Types (s : t T) (L data : elements T) (v : T).

Lemma toArray_zero s :
  zero_capacity s ->
  toArray s = (Normal (elems (buffer s)), s) /\ len (elems (buffer s)) <= 1.
Proof.
  intros (_ & [(He & Hp)|(x & He & Hp)]); rewrite toArray_run, He, Hp.
  - split; [reflexivity|]. lens. lia.
  - split; [reflexivity|]. lens. lia.
Qed.

Lemma add_item_zero v s : zero_capacity s -> zero_capacity (after (add_item v) s).
Proof.
  intros (Hs & H). unfold after. rewrite add_item_run. cbn [snd].
  split; [exact Hs|]. cbn [buffer size pos]. rewrite Hs. right.
  destruct H as [(He & Hp)|(x & He & Hp)]; rewrite Hp.
  - exists v. cbn. rewrite He. split; reflexivity.
  - exists x. cbn. rewrite He. split; reflexivity.
Qed.

Lemma add_zero items s : zero_capacity s -> zero_capacity (after (add items) s).
Proof.
  revert s. induction items as [|v items IH]; intros s H.
  - exact H.
  - unfold after. rewrite add_cons. apply IH, add_item_zero, H.
Qed.

Lemma invariant_toArray s :
  invariant s ->
  exists L, toArray s = (Normal L, s) /\ len (elems (buffer s)) = len L
            /\ (0 < size s -> holds (size s) s L)
            /\ (size s = 0 -> len L <= 1).
Proof.
  intros [(L & H)|H].
  - exists L. split; [exact (toArray_holds _ _ _ H)|].
    split; [apply (holds_len _ _ _ H)|]. split; [intros _; exact H|].
    destruct (holds_size _ _ _ H). lia.
  - destruct (toArray_zero s H) as (Ht & Hl). destruct H as (Hs & H).
    exists (elems (buffer s)).
    split; [assumption|]. split; [reflexivity|]. split; [lia|].
    intros _. assumption.
Qed.

(** [resize(n)] with [n > 0] on a reachable instance keeps the last [n]
    elements of the content. *)
Lemma resize_holds n s L :
  invariant s -> toArray s = (Normal L, s) -> 0 < n ->
  resize n s = (Normal tt, after (resize n) s) /\
  holds n (after (resize n) s) (suffix n L).
Proof.
  intros Hinv Hto Hn.
  destruct (invariant_toArray s Hinv) as (L' & Hto' & Hlen & Hpos & Hzero).
  assert (L' = L) by congruence. subst L'.
  destruct (Z.eq_dec n (size s)) as [E|E].
  - subst n. unfold after. rewrite resize_same by assumption.
    split; [reflexivity|]. specialize (Hpos Hn).
    rewrite suffix_all by (apply (holds_len _ _ _ Hpos)). exact Hpos.
  - unfold after. rewrite (resize_run n s L Hn E Hto).
    split; [reflexivity|]. cbn [snd].
    unfold num_rem. destruct (Z.eqb_spec n 0); [lia|].
    assert (He : elems (buffer (after (fromArray_false (suffix n L)) s))
                 = suffix n L).
    { destruct Hinv as [(L' & H)|H].
      - destruct (holds_size _ _ _ H) as (_ & Hc).
        unfold after. rewrite fromArray_false_run by assumption.
        cbn [snd buffer elems new_array].
        apply suffix_all. rewrite len_suffix by lia.
        pose proof (holds_len _ _ _ (Hpos Hc)). lia.
      - unfold after. rewrite fromArray_false_zero by apply H.
        cbn [snd]. destruct (toArray_zero s H) as (Ht & Hl).
        assert (elems (buffer s) = L) by congruence. subst L.
        symmetry. apply suffix_all. lia. }
    pose proof (holds_packed n
      (buffer (after (fromArray_false (suffix n L)) s)) Hn) as HP.
    rewrite He in HP. rewrite He. apply HP.
    rewrite len_suffix by lia. lia.
Qed.

Lemma invariant_constructor c s : constructor c = Normal s -> invariant s.
Proof.
  intros H. destruct (Z.lt_total c 1) as [Hc|Hc].
  - right. unfold constructor in H. destruct (Z.ltb_spec c 0); [discriminate|].
    injection H as <-. split; [cbn; lia|]. left. split; reflexivity.
  - left. exists []. assert (Hs : size s = c).
    { unfold constructor in H. destruct (c <? 0); [discriminate|].
      injection H as <-. reflexivity. }
    rewrite Hs. apply constructor_holds; [lia|assumption].
Qed.

Lemma invariant_add items s : invariant s -> invariant (after (add items) s).
Proof.
  intros [(L & H)|H].
  - left. exists (suffix (size s) (L ++ map Some items)).
    pose proof (add_holds _ _ _ items H) as H'.
    destruct (holds_size _ _ _ H') as (-> & _). exact H'.
  - right. apply add_zero, H.
Qed.

Lemma invariant_fromArray_false data s :
  invariant s -> invariant (after (fromArray_false data) s).
Proof.
  intros Hinv. destruct (Z.eq_dec (size s) 0) as [E|E].
  - unfold after. rewrite fromArray_false_zero by assumption. exact Hinv.
  - assert (Hc : 0 < size s).
    { destruct Hinv as [(L & H)|(H & _)]; [apply (holds_size _ _ _ H)|lia]. }
    left. exists (suffix (size s) data).
    pose proof (fromArray_false_holds data s Hc) as H'.
    destruct (holds_size _ _ _ H') as (-> & _). exact H'.
Qed.

Lemma invariant_clear s : invariant s -> invariant (after clear s).
Proof.
  intros Hinv. unfold after. rewrite clear_run. cbn [snd].
  destruct (Z.eq_dec (size s) 0) as [E|E].
  - right. split; [exact E|]. left. split; reflexivity.
  - assert (Hc : 0 < size s).
    { destruct Hinv as [(L & H)|(H & _)]; [apply (holds_size _ _ _ H)|lia]. }
    left. exists []. cbn [size].
    apply (holds_packed (size s) (new_array [])); [assumption|].
    cbn. lia.
Qed.

Lemma invariant_resize n s : invariant s -> invariant (after (resize n) s).
Proof.
  intros Hinv. destruct (Z.lt_total n 0) as [Hn|[Hn|Hn]].
  - unfold after. rewrite resize_negative by assumption. exact Hinv.
  - subst n. unfold after. rewrite resize_zero. cbn [snd].
    right. split; [reflexivity|]. left. split; reflexivity.
  - destruct (invariant_toArray s Hinv) as (L & Hto & _).
    destruct (resize_holds n s L Hinv Hto Hn) as (_ & H).
    left. exists (suffix n L).
    destruct (holds_size _ _ _ H) as (-> & _). exact H.
Qed.

Lemma resize_normal n s :
  0 <= n -> resize n s = (Normal tt, after (resize n) s).
Proof.
  intros Hn. unfold after, resize.
  destruct (Z.ltb_spec n 0); [lia|].
  destruct (Z.eqb_spec n 0); [reflexivity|].
  cbv [bind this_size toArray this_buffer this_pos ret].
  destruct (negb (n =? size s)); [|reflexivity].
  rewrite fromArray_false_normal. reflexivity.
Qed.

Lemma fromArray_after data rsz s :
  after (fromArray data rsz) s =
  after (fromArray_false data)
    (if rsz then after (resize (len data)) s else s).
Proof.
  destruct rsz; [|reflexivity].
  unfold fromArray, after at 1, bind.
  rewrite resize_normal by apply len_nonneg. reflexivity.
Qed.

Lemma invariant_fromArray data rsz s :
  invariant s -> invariant (after (fromArray data rsz) s).
Proof.
  intros Hinv. rewrite fromArray_after. apply invariant_fromArray_false.
  destruct rsz; [apply invariant_resize|]; assumption.
Qed.

(** [remove] leaves the instance alone or reloads it with [fromArray]. *)
Lemma remove_after index count s :
  after (remove index count) s = s \/
  exists data, after (remove index count) s = after (fromArray_false data) s.
Proof.
  unfold remove, after at 1 2.
  cbv [bind this_buffer toArray this_pos ret fromArray].
  match goal with |- context [if ?g then _ else _] => destruct g end.
  - left. reflexivity.
  - right.
    match goal with |- context [splice ?a ?i ?k] =>
      destruct (splice a i k) as [removedItems arr] end.
    exists arr. rewrite fromArray_false_normal. reflexivity.
Qed.

Lemma invariant_remove index count s :
  invariant s -> invariant (after (remove index count) s).
Proof.
  intros Hinv. destruct (remove_after index count s) as [->|(data & ->)].
  - exact Hinv.
  - apply invariant_fromArray_false, Hinv.
Qed.

Lemma removeFirst_after s : after removeFirst s = after (remove 0 1) s.
Proof.
  unfold removeFirst, after, bind. destruct (remove 0 1 s) as [[r|e] s']; reflexivity.
Qed.

Lemma removeLast_after s : after removeLast s = after (remove (-1) 1) s.
Proof.
  unfold removeLast, after, bind. destruct (remove (-1) 1 s) as [[r|e] s']; reflexivity.
Qed.

Lemma reachable_invariant s : reachable s -> invariant s.
Proof.
  induction 1 as [c s H| | | | | | |].
  - exact (invariant_constructor c s H).
  - apply invariant_add; assumption.
  - apply invariant_remove; assumption.
  - rewrite removeFirst_after. apply invariant_remove; assumption.
  - rewrite removeLast_after. apply invariant_remove; assumption.
  - apply invariant_fromArray; assumption.
  - apply invariant_clear; assumption.
  - apply invariant_resize; assumption.
Qed.

End Invariant.

(** ** Sequences of [add] calls *)

Section Adding.
Context {T : Type}.
Implicit Types (s : t T) (L : elements T).

Lemma add_normal (items : list T) s : add items s = (Normal tt, after (add items) s).
Proof.
  unfold after. pose proof (add_result items s) as H. unfold result in H.
  destruct (add items s) as [r s']. simpl in *. congruence.
Qed.

Lemma calls_add (batches : list (list T)) s :
  calls (map add batches) s = (Normal tt, after (add (concat batches)) s).
Proof.
  revert s. induction batches as [|items batches IH]; intros s.
  - reflexivity.
  - simpl map. simpl concat. simpl calls. unfold bind.
    rewrite add_normal, IH, add_app. reflexivity.
Qed.

Lemma added_from_holds c s :
  1 <= c -> added_from c s -> exists L, holds c s L.
Proof.
  intros Hc. induction 1 as [s H|items s _ (L & IH)].
  - exists []. apply constructor_holds; assumption.
  - eexists. apply add_holds, IH.
Qed.

Lemma getBufferLength_run s :
  getBufferLength s = (Normal (len (elems (buffer s))), s).
Proof. reflexivity. Qed.

End Adding.

(** ** Reading a buffer in its regular layout *)

Section Reading.
Context {T : Type}.
Implicit Types (s : t T) (L front back : elements T).

Lemma nth_rotated front back (j : Z) :
  0 <= j < len front + len back ->
  nth (Z.to_nat (Z.rem (len back + j) (len front + len back)))
    (back ++ front) None
  = nth (Z.to_nat j) (front ++ back) None.
Proof.
  intros Hj. pose proof (len_nonneg front). pose proof (len_nonneg back).
  rewrite Z.rem_mod_nonneg by lia.
  destruct (Z.lt_ge_cases (len back + j) (len front + len back)) as [Hlt|Hge].
  - rewrite Z.mod_small by lia.
    rewrite app_nth2 by (unfold len; lia).
    rewrite app_nth1 by (unfold len in *; lia).
    f_equal. unfold len. lia.
  - rewrite <- (Z.mod_unique (len back + j) (len front + len back) 1
                  (j - len front)) by lia.
    rewrite app_nth1 by (unfold len in *; lia).
    rewrite app_nth2 by (unfold len in *; lia).
    f_equal. unfold len. lia.
Qed.

(** [get] on a remapped index inside the content. *)
Lemma get_holds c s L index :
  holds c s L ->
  0 <= remap index (len L) < len L ->
  get index s = (Normal (nth (Z.to_nat (remap index (len L))) L None), s).
Proof.
  intros H Hj. destruct (holds_len _ _ _ H) as (Hlen & Hle).
  destruct H as (Hs & Hc & front & back & HL & He & Hp & Hlt & Hf).
  unfold get. cbv [bind this_buffer this_size this_pos ret].
  fold (remap index (len (elems (buffer s)))). rewrite Hlen.
  set (j := remap index (len L)) in *.
  destruct (Z.ltb_spec j 0); [lia|].
  rewrite Z.gtb_ltb. destruct (Z.ltb_spec (len L) j); [lia|]. cbn [orb].
  rewrite Hs. destruct (Z.ltb_spec (len L) c) as [Hnf|Hfull].
  - destruct Hf as [Hf|Hf]; [|lia]. subst front.
    unfold array_get. destruct (Z.leb_spec 0 j); [|lia].
    rewrite He, HL, app_nil_r. reflexivity.
  - assert (Hc' : len front + len back = c) by (rewrite HL in *; lens; lia).
    rewrite Hp. unfold num_add, num_rem.
    destruct (Z.eqb_spec c 0); [lia|]. unfold array_get.
    pose proof (len_nonneg back).
    destruct (Z.leb_spec 0 (Z.rem (len back + j) c)) as [_|Hneg].
    + rewrite He, HL, <- Hc'. do 2 f_equal.
      apply nth_rotated. rewrite HL in *. lens. lia.
    + pose proof (Z.rem_nonneg (len back + j) c). lia.
Qed.





(** [remove] on a remapped start index inside the content or at its
    end: the elements [splice] takes out are returned and the rest is
    reloaded. *)
Lemma remove_holds c s L index count :
  holds c s L ->
  0 <= remap index (len L) <= len L ->
  remove index count s =
  (Normal (fst (splice L (remap index (len L)) count)),
   after (fromArray_false (snd (splice L (remap index (len L)) count))) s).
Proof.
  intros H Hj. destruct (holds_len _ _ _ H) as (Hlen & Hle).
  unfold remove. cbv [bind this_buffer].
  fold (remap index (len (elems (buffer s)))). rewrite Hlen.
  set (j := remap index (len L)) in *.
  destruct (Z.ltb_spec j 0); [lia|].
  rewrite Z.gtb_ltb. destruct (Z.ltb_spec (len L) j); [lia|]. cbn [orb].
  rewrite (toArray_holds _ _ _ H).
  destruct (splice L j count) as [removedItems arr]. cbn [fst snd].
  rewrite fromArray_flag_false, fromArray_false_normal. reflexivity.
Qed.

(** The range test of [get] and [remove]. *)
Lemma range_test (index n : Z) :
  remap index n < 0 \/ n < remap index n ->
  (remap index n <? 0) || (remap index n >? n) = true.
Proof.
  intros H. rewrite Z.gtb_ltb.
  destruct (Z.ltb_spec (remap index n) 0); [reflexivity|].
  destruct (Z.ltb_spec n (remap index n)); [reflexivity|lia].
Qed.

Lemma len_splice_rest L (j count : Z) : len (snd (splice L j count)) <= len L.
Proof.
  unfold splice, rel_index. cbn [snd]. pose proof (len_nonneg L) as H0.
  rewrite len_app. unfold len in *. rewrite length_firstn, length_skipn.
  destruct (j <? 0); lia.
Qed.

Lemma reachable_holds s L :
  reachable s -> 0 < size s -> result toArray s = Normal L ->
  holds (size s) s L.
Proof.
  intros Hr Hc Hto. apply reachable_invariant in Hr.
  destruct (invariant_toArray s Hr) as (L' & Hto' & _ & H & _).
  unfold result in Hto. rewrite Hto' in Hto. cbn [fst] in Hto.
  injection Hto as <-. apply H, Hc.
Qed.

End Reading.

(** * The claims *)

(** C4.  Overwrite order: on a buffer constructed with capacity [c >= 1],
    calls of [add] that pass [c + k] elements in all, [k >= 0], end
    normally and leave [toArray()] equal to the last [c] of these elements,
    in the order they were added. *)
Theorem add_keeps_most_recent {T} (c k : Z) (batches : list (list T)) (s0 : t T) :
  1 <= c -> 0 <= k ->
  constructor c = Normal s0 ->
  Z.of_nat (length (concat batches)) = c + k ->
  result (calls (map add batches)) s0 = Normal tt /\
  result toArray (after (calls (map add batches)) s0)
  = Normal (map Some (skipn (Z.to_nat k) (concat batches))).
Proof.
  intros Hc Hk Hnew Hlen. unfold result, after.
  rewrite calls_add. cbn [fst snd]. split; [reflexivity|].
  pose proof (add_holds c s0 [] (concat batches)
                (constructor_holds c s0 Hc Hnew)) as H.
  rewrite (toArray_holds _ _ _ H). cbn [fst app]. f_equal.
  unfold suffix. rewrite length_map, skipn_map. do 2 f_equal. lia.
Qed.

Lemma add_keeps_most_recent_witness :
  result (calls (map add [[1; 2]; [3; 4; 5]]))
    {| buffer := new_array []; size := 3; pos := Num 0 |} = Normal tt /\
  result toArray (after (calls (map add [[1; 2]; [3; 4; 5]]))
                    {| buffer := new_array []; size := 3; pos := Num 0 |})
  = Normal [Some 3; Some 4; Some 5].
Proof.
  apply (add_keeps_most_recent 3 2 [[1; 2]; [3; 4; 5]]
           {| buffer := new_array []; size := 3; pos := Num 0 |});
    [lia | lia | reflexivity | reflexivity].
Defined.

(** C9.  On a buffer constructed with capacity [c >= 1] and changed by
    calls of [add] only, [getBufferLength()] is at most [c] after every
    call, and once it is [c] every further [add] leaves it at [c]. *)
Theorem add_bounded_by_capacity {T} (c : Z) (s : t T) :
  1 <= c -> added_from c s ->
  exists n,
    result getBufferLength s = Normal n /\ 0 <= n <= c /\
    (n = c ->
     forall items, result getBufferLength (after (add items) s) = Normal c).
Proof.
  intros Hc Hs. destruct (added_from_holds c s Hc Hs) as (L & H).
  exists (len (elems (buffer s))). split; [reflexivity|].
  destruct (holds_len _ _ _ H) as (He & Hle).
  split; [pose proof (len_nonneg L); lia|].
  intros Hfull items. unfold result. rewrite getBufferLength_run. cbn [fst].
  f_equal. pose proof (add_holds _ _ _ items H) as H'.
  destruct (holds_len _ _ _ H') as (He' & _). rewrite He'.
  rewrite len_suffix, len_app by lia.
  pose proof (len_nonneg (map Some items)). lia.
Qed.

Lemma add_bounded_by_capacity_witness :
  exists n,
    result getBufferLength
      (after (add [1; 2; 3]) {| buffer := new_array []; size := 2; pos := Num 0 |})
    = Normal n /\ 0 <= n <= 2 /\
    (n = 2 ->
     forall items,
       result getBufferLength
         (after (add items)
            (after (add [1; 2; 3])
               {| buffer := new_array []; size := 2; pos := Num 0 |}))
       = Normal 2).
Proof.
  apply (add_bounded_by_capacity 2); [lia|].
  apply added_add, added_new. reflexivity.
Defined.

(** C6.  On a reachable instance with content [L], [resize(n)] with
    [n > 0] ends normally and sets the capacity to [n]; when [n] is at
    least the length of [L] the content is still [L], and when [n] is
    smaller the content is the last [n] elements of [L]. *)
Theorem resize_keeps_most_recent {T} (s : t T) (L : elements T) (n : Z) :
  reachable s -> result toArray s = Normal L -> 0 < n ->
  result (resize n) s = Normal tt /\
  result getSize (after (resize n) s) = Normal n /\
  (len L <= n -> result toArray (after (resize n) s) = Normal L) /\
  (n < len L -> result toArray (after (resize n) s) = Normal (suffix n L)).
Proof.
  intros Hr Hto Hn. apply reachable_invariant in Hr.
  assert (Hto' : toArray s = (Normal L, s)).
  { unfold result in Hto. rewrite toArray_run in Hto. cbn [fst] in Hto.
    rewrite toArray_run. injection Hto as ->. reflexivity. }
  destruct (resize_holds n s L Hr Hto' Hn) as (Hres & H).
  split; [unfold result; rewrite Hres; reflexivity|].
  split; [unfold result, getSize, this_size; cbn [fst];
          f_equal; apply (holds_size _ _ _ H)|].
  unfold result. rewrite (toArray_holds _ _ _ H). cbn [fst].
  split; intros Hl; [|reflexivity].
  rewrite suffix_all by assumption. reflexivity.
Qed.

Lemma resize_keeps_most_recent_witness :
  result (resize 3)
    (after (add [1; 2; 3; 4; 5])
       {| buffer := new_array []; size := 5; pos := Num 0 |}) = Normal tt /\
  result toArray
    (after (resize 3)
       (after (add [1; 2; 3; 4; 5])
          {| buffer := new_array []; size := 5; pos := Num 0 |}))
  = Normal [Some 3; Some 4; Some 5].
Proof.
  destruct (resize_keeps_most_recent
              (after (add [1; 2; 3; 4; 5])
                 {| buffer := new_array []; size := 5; pos := Num 0 |})
              [Some 1; Some 2; Some 3; Some 4; Some 5] 3)
    as (H1 & _ & _ & H2).
  - apply reach_add, (reach_new 5). reflexivity.
  - reflexivity.
  - lia.
  - split; [exact H1|]. apply H2. reflexivity.
Defined.

(** C8.  A negative size makes the constructor throw its [RangeError], and
    makes [resize] throw the same error with the instance (buffer, size and
    pos) as it was before the call. *)
Theorem negative_size_rejected {T} (n : Z) (s : t T) :
  n < 0 ->
  @constructor T n = Throw negative_size /\
  resize n s = (Throw negative_size, s).
Proof.
  intros H. split.
  - unfold constructor. destruct (Z.ltb_spec n 0); [reflexivity|lia].
  - apply resize_negative, H.
Qed.

Lemma negative_size_rejected_witness :
  @constructor Z (-1) = Throw negative_size /\
  resize (-1) {| buffer := new_array [Some 4; Some 2]; size := 2; pos := Num 1 |}
  = (Throw negative_size,
     {| buffer := new_array [Some 4; Some 2]; size := 2; pos := Num 1 |}).
Proof.
  apply (negative_size_rejected (-1)). lia.
Defined.

(** C10.  The read accessors [get], [getFirst], [getLast], [toArray],
    [firstN], [lastN], [getSize], [getPos], [getBufferLength], [isFull]
    and [isEmpty] leave the instance (buffer, size and pos) as it was, on
    every instance and for every argument. *)
Theorem accessors_leave_instance {T} (s : t T) (index n : Z) :
  after (get index) s = s /\
  after getFirst s = s /\
  after getLast s = s /\
  after toArray s = s /\
  after (firstN n) s = s /\
  after (lastN n) s = s /\
  after getSize s = s /\
  after getPos s = s /\
  after getBufferLength s = s /\
  after isFull s = s /\
  after isEmpty s = s.
Proof.
  assert (Hget : forall i, after (get i) s = s).
  { intros i. unfold after, get.
    cbv [bind this_buffer this_size this_pos ret].
    destruct ((_ <? 0) || _); [reflexivity|].
    destruct (_ <? size s); reflexivity. }
  repeat split; try reflexivity.
  - apply Hget.
  - apply Hget.
  - apply Hget.
  - unfold after, firstN. cbv [bind this_buffer this_size this_pos ret].
    destruct (num_le _ _); reflexivity.
  - unfold after, lastN. cbv [bind this_buffer this_size this_pos ret].
    destruct (num_le _ _); reflexivity.
Qed.

(** ** Where the class departs from its description

    Each statement below runs the methods on one concrete buffer of
    integers. *)

(** C1.  [get] rejects a remapped index only when it is greater than the
    stored length ([index > this.buffer.length]), so [get(storedLength)] is
    not absent on a full buffer: after [new RingBuffer(2)] and
    [add(1, 2, 3)] the stored length is 2, the content is [2, 3], and
    [get(2)] wraps around to the oldest element, 2. *)
Theorem get_at_stored_length :
  exists s0 : t Z,
    constructor 2 = Normal s0 /\
    result getBufferLength (after (add [1; 2; 3]) s0) = Normal 2 /\
    result toArray (after (add [1; 2; 3]) s0) = Normal [Some 2; Some 3] /\
    result (get 2) (after (add [1; 2; 3]) s0) = Normal (Some 2).
Proof.
  eexists. split; [reflexivity|]. repeat split.
Qed.

(** C2.  [add] has no case for capacity 0: on [new RingBuffer(0)],
    [add(1)] stores the item at index 0 and computes [pos] as [1 % 0],
    which is [NaN].  The buffer is then not empty, its stored length is 1
    and its content is [1]. *)
Theorem add_on_zero_capacity :
  exists s0 : t Z,
    constructor 0 = Normal s0 /\
    after (add [1]) s0
    = {| buffer := new_array [Some 1]; size := 0; pos := NaN |} /\
    result isEmpty (after (add [1]) s0) = Normal false /\
    result getBufferLength (after (add [1]) s0) = Normal 1 /\
    result toArray (after (add [1]) s0) = Normal [Some 1].
Proof.
  eexists. split; [reflexivity|]. repeat split.
Qed.

(** C3.  [firstN] and [lastN] differ from the slices of [toArray()]:
    on a buffer of capacity 3 holding one element, [firstN(1)] is empty;
    on a full buffer of capacity 2 with content [2, 3], a request of 3
    elements returns [2, 3, 2] from [firstN] and [3, 2, 3] from [lastN]. *)
Theorem firstN_lastN_differ_from_toArray :
  (exists s0 : t Z,
     constructor 3 = Normal s0 /\
     result toArray (after (add [1]) s0) = Normal [Some 1] /\
     result (firstN 1) (after (add [1]) s0) = Normal []) /\
  (exists s0 : t Z,
     constructor 2 = Normal s0 /\
     result toArray (after (add [1; 2; 3]) s0) = Normal [Some 2; Some 3] /\
     result (firstN 3) (after (add [1; 2; 3]) s0)
     = Normal [Some 2; Some 3; Some 2] /\
     result (lastN 3) (after (add [1; 2; 3]) s0)
     = Normal [Some 3; Some 2; Some 3]).
Proof.
  split; eexists; (split; [reflexivity|]); repeat split.
Qed.

(** C5.  On a buffer of capacity 0 that [add] was called on, [fromArray]
    returns at once and the stored item stays: after [new RingBuffer(0)],
    [add(1)] and [fromArray([])], [toArray()] is [1], not the empty
    sequence that was imported. *)
Theorem fromArray_after_add_on_zero_capacity :
  exists s0 : t Z,
    constructor 0 = Normal s0 /\
    result (fromArray [] false) (after (add [1]) s0) = Normal tt /\
    result toArray (after (fromArray [] false) (after (add [1]) s0))
    = Normal [Some 1].
Proof.
  eexists. split; [reflexivity|]. repeat split.
Qed.

(** C7.  [remove] has the same test as [get]: a start index equal to the
    stored length is not rejected.  On the full buffer of capacity 2 made
    by [add(1, 2, 3)] (array [3, 2], [pos] 1), [remove(2)] returns no
    element but reloads the buffer: the array becomes [2, 3] and [pos]
    becomes 0. *)
Theorem remove_at_stored_length :
  exists s0 : t Z,
    constructor 2 = Normal s0 /\
    after (add [1; 2; 3]) s0
    = {| buffer := new_array [Some 3; Some 2]; size := 2; pos := Num 1 |} /\
    remove 2 1 (after (add [1; 2; 3]) s0)
    = (Normal [],
       {| buffer := new_array [Some 2; Some 3]; size := 2; pos := Num 0 |}).
Proof.
  eexists. split; [reflexivity|]. repeat split.
Qed.

(** ** Further properties of the methods *)

(** X1.  [get] returns [undefined] and leaves the instance alone when the
    remapped index is negative or greater than the stored length. *)
Theorem get_out_of_range {T} (s : t T) (index : Z) :
  remap index (len (elems (buffer s))) < 0 \/
  len (elems (buffer s)) < remap index (len (elems (buffer s))) ->
  get index s = (Normal None, s).
Proof.
  intros H. unfold get. cbv [bind this_buffer ret].
  fold (remap index (len (elems (buffer s)))).
  rewrite range_test by assumption. reflexivity.
Qed.

Lemma get_out_of_range_witness :
  get 3 {| buffer := new_array [Some 4; Some 2]; size := 2; pos := Num 1 |}
  = (Normal None,
     {| buffer := new_array [Some 4; Some 2]; size := 2; pos := Num 1 |}).
Proof.
  apply (get_out_of_range
           {| buffer := new_array [Some 4; Some 2]; size := 2; pos := Num 1 |} 3).
  right. vm_compute. reflexivity.
Defined.

(** X2.  [remove] returns no element and leaves the instance alone when the
    remapped start index is negative or greater than the stored length. *)
Theorem remove_out_of_range {T} (s : t T) (index count : Z) :
  remap index (len (elems (buffer s))) < 0 \/
  len (elems (buffer s)) < remap index (len (elems (buffer s))) ->
  remove index count s = (Normal [], s).
Proof.
  intros H. unfold remove. cbv [bind this_buffer ret].
  fold (remap index (len (elems (buffer s)))).
  rewrite range_test by assumption. reflexivity.
Qed.

Lemma remove_out_of_range_witness :
  remove (-3) 1 {| buffer := new_array [Some 4; Some 2]; size := 2; pos := Num 1 |}
  = (Normal [],
     {| buffer := new_array [Some 4; Some 2]; size := 2; pos := Num 1 |}).
Proof.
  apply (remove_out_of_range
           {| buffer := new_array [Some 4; Some 2]; size := 2; pos := Num 1 |}
           (-3) 1).
  left. vm_compute. reflexivity.
Defined.

(** X3.  Round trip: [fromArray(data)] followed by [toArray()] gives [data]
    back when [data] fits the capacity, on every instance of capacity at
    least 1 and on every instance of capacity 0 whose array is empty. *)
Theorem fromArray_toArray_roundtrip {T} (s : t T) (data : elements T) :
  len data <= size s ->
  (size s = 0 -> elems (buffer s) = []) ->
  result (fromArray data false) s = Normal tt /\
  result toArray (after (fromArray data false) s) = Normal data.
Proof.
  intros Hle Hz. pose proof (len_nonneg data) as H0.
  unfold result, after. rewrite fromArray_flag_false.
  destruct (Z.eq_dec (size s) 0) as [E|E].
  - rewrite fromArray_false_zero by assumption. cbn [fst snd].
    split; [reflexivity|]. rewrite toArray_run, (Hz E). cbn [fst].
    destruct data as [|x data]; [|lens; pose proof (len_nonneg data); lia].
    unfold slice_from, slice. rewrite firstn_nil, !skipn_nil. reflexivity.
  - assert (Hc : 0 < size s) by lia.
    rewrite fromArray_false_normal. cbn [fst snd]. split; [reflexivity|].
    rewrite (toArray_holds _ _ _ (fromArray_false_holds data s Hc)).
    cbn [fst]. rewrite suffix_all by assumption. reflexivity.
Qed.

Lemma fromArray_toArray_roundtrip_witness :
  result (fromArray [Some 7; Some 8] false)
    {| buffer := new_array [Some 3; Some 2]; size := 2; pos := Num 1 |}
  = Normal tt /\
  result toArray
    (after (fromArray [Some 7; Some 8] false)
       {| buffer := new_array [Some 3; Some 2]; size := 2; pos := Num 1 |})
  = Normal [Some 7; Some 8].
Proof.
  apply (fromArray_toArray_roundtrip
           {| buffer := new_array [Some 3; Some 2]; size := 2; pos := Num 1 |}
           [Some 7; Some 8]).
  - vm_compute. discriminate.
  - cbn. lia.
Defined.

(** X4.  On a reachable instance of capacity at least 1, [get(index)] returns
    the element of [toArray()] at the remapped index, when that index lies
    inside the content, and leaves the instance alone. *)
Theorem get_in_range {T} (s : t T) (L : elements T) (index : Z) :
  reachable s -> 0 < size s -> result toArray s = Normal L ->
  0 <= remap index (len L) < len L ->
  get index s = (Normal (nth (Z.to_nat (remap index (len L))) L None), s).
Proof.
  intros Hr Hc Hto Hj.
  apply (get_holds (size s)); [apply reachable_holds|]; assumption.
Qed.

Lemma get_in_range_witness :
  get (-1) (after (add [1; 2; 3]) {| buffer := new_array []; size := 2; pos := Num 0 |})
  = (Normal (Some 3),
     after (add [1; 2; 3]) {| buffer := new_array []; size := 2; pos := Num 0 |}).
Proof.
  apply (get_in_range
           (after (add [1; 2; 3])
              {| buffer := new_array []; size := 2; pos := Num 0 |})
           [Some 2; Some 3] (-1)).
  - apply reach_add, (reach_new 2). reflexivity.
  - cbn. lia.
  - reflexivity.
  - vm_compute. split; [discriminate|reflexivity].
Defined.



(** X6.  On a reachable instance of capacity at least 1 with content [L],
    [remove(index, count)] with a remapped start index in [0 .. length of
    L] returns the elements [L.splice] removes, leaves the other elements
    of [L] as the content, in order, and keeps the capacity. *)
Theorem remove_in_range {T} (s : t T) (L : elements T) (index count : Z) :
  reachable s -> 0 < size s -> result toArray s = Normal L ->
  0 <= remap index (len L) <= len L ->
  result (remove index count) s
  = Normal (fst (splice L (remap index (len L)) count)) /\
  result toArray (after (remove index count) s)
  = Normal (snd (splice L (remap index (len L)) count)) /\
  result getSize (after (remove index count) s) = Normal (size s).
Proof.
  intros Hr Hc Hto Hj.
  pose proof (reachable_holds s L Hr Hc Hto) as H.
  unfold result, after.
  rewrite (remove_holds _ s L index count H Hj). cbn [fst snd].
  split; [reflexivity|].
  set (rest := snd (splice L (remap index (len L)) count)).
  pose proof (fromArray_false_holds rest s Hc) as H'.
  rewrite (toArray_holds _ _ _ H'). cbn [fst].
  rewrite suffix_all.
  - split; [reflexivity|]. unfold getSize, this_size. cbn [fst].
    f_equal. apply (holds_size _ _ _ H').
  - pose proof (len_splice_rest L (remap index (len L)) count).
    destruct (holds_len _ _ _ H). fold rest in H0. lia.
Qed.

Lemma remove_in_range_witness :
  result (remove 0 1)
    (after (add [1; 2; 3]) {| buffer := new_array []; size := 3; pos := Num 0 |})
  = Normal [Some 1] /\
  result toArray
    (after (remove 0 1)
       (after (add [1; 2; 3]) {| buffer := new_array []; size := 3; pos := Num 0 |}))
  = Normal [Some 2; Some 3] /\
  result getSize
    (after (remove 0 1)
       (after (add [1; 2; 3]) {| buffer := new_array []; size := 3; pos := Num 0 |}))
  = Normal 3.
Proof.
  apply (remove_in_range
           (after (add [1; 2; 3])
              {| buffer := new_array []; size := 3; pos := Num 0 |})
           [Some 1; Some 2; Some 3] 0 1).
  - apply reach_add, (reach_new 3). reflexivity.
  - cbn. lia.
  - reflexivity.
  - vm_compute. split; discriminate.
Defined.

(** X7.  The data model on every reachable instance of capacity at least 1:
    [pos] is an integer in [0 .. size - 1], the array is no longer than
    the capacity, and while it is shorter [pos] is its length. *)
Theorem reachable_layout {T} (s : t T) :
  reachable s -> 0 < size s ->
  exists p,
    pos s = Num p /\ 0 <= p < size s /\
    len (elems (buffer s)) <= size s /\
    (len (elems (buffer s)) < size s -> p = len (elems (buffer s))).
Proof.
  intros Hr Hc. apply reachable_invariant in Hr.
  destruct Hr as [(L & H)|(Hz & _)]; [|lia].
  destruct (holds_len _ _ _ H) as (Hlen & Hle).
  destruct H as (_ & _ & front & back & HL & He & Hp & Hlt & Hf).
  exists (len back). pose proof (len_nonneg back).
  repeat split; try assumption; try lia.
  intros Hnf. destruct Hf as [->|Hf]; [|lia].
  rewrite He, app_nil_r. reflexivity.
Qed.

Lemma reachable_layout_witness :
  exists p,
    pos (after (add [1; 2; 3]) {| buffer := new_array []; size := 2; pos := Num 0 |})
    = Num p /\
    0 <= p < 2 /\
    len (elems (buffer (after (add [1; 2; 3])
                          {| buffer := new_array []; size := 2; pos := Num 0 |})))
    <= 2 /\
    (len (elems (buffer (after (add [1; 2; 3])
                           {| buffer := new_array []; size := 2; pos := Num 0 |})))
     < 2 ->
     p = len (elems (buffer (after (add [1; 2; 3])
                               {| buffer := new_array []; size := 2; pos := Num 0 |})))).
Proof.
  apply (reachable_layout
           (after (add [1; 2; 3])
              {| buffer := new_array []; size := 2; pos := Num 0 |})).
  - apply reach_add, (reach_new 2). reflexivity.
  - cbn. lia.
Defined.

(** X8.  The instance [new RingBuffer(0)] makes is empty and full, its
    content is empty and [get] finds nothing in it; [remove],
    [removeFirst], [removeLast], [fromArray] without resize, [clear] and
    [resize(0)] leave it exactly as it is. *)
Theorem zero_capacity_without_add {T} (index count : Z) (data : elements T) :
  @constructor T 0
  = Normal {| buffer := new_array []; size := 0; pos := Num 0 |} /\
  after (remove index count) {| buffer := @new_array T []; size := 0; pos := Num 0 |}
  = {| buffer := new_array []; size := 0; pos := Num 0 |} /\
  after removeFirst {| buffer := @new_array T []; size := 0; pos := Num 0 |}
  = {| buffer := new_array []; size := 0; pos := Num 0 |} /\
  after removeLast {| buffer := @new_array T []; size := 0; pos := Num 0 |}
  = {| buffer := new_array []; size := 0; pos := Num 0 |} /\
  after (fromArray data false) {| buffer := @new_array T []; size := 0; pos := Num 0 |}
  = {| buffer := new_array []; size := 0; pos := Num 0 |} /\
  after clear {| buffer := @new_array T []; size := 0; pos := Num 0 |}
  = {| buffer := new_array []; size := 0; pos := Num 0 |} /\
  after (resize 0) {| buffer := @new_array T []; size := 0; pos := Num 0 |}
  = {| buffer := new_array []; size := 0; pos := Num 0 |} /\
  result isEmpty {| buffer := @new_array T []; size := 0; pos := Num 0 |}
  = Normal true /\
  result isFull {| buffer := @new_array T []; size := 0; pos := Num 0 |}
  = Normal true /\
  result toArray {| buffer := @new_array T []; size := 0; pos := Num 0 |}
  = Normal [] /\
  result (get index) {| buffer := @new_array T []; size := 0; pos := Num 0 |}
  = Normal None.
Proof.
  set (s0 := {| buffer := @new_array T []; size := 0; pos := Num 0 |}).
  assert (Hremove : forall i k, after (remove i k) s0 = s0).
  { intros i k. destruct (remove_after i k s0) as [->|(d & ->)].
    - reflexivity.
    - unfold after. rewrite fromArray_false_zero; reflexivity. }
  split; [reflexivity|]. split; [apply Hremove|].
  split; [rewrite removeFirst_after; apply Hremove|].
  split; [rewrite removeLast_after; apply Hremove|].
  repeat (split; [reflexivity|]).
  destruct (Z.eq_dec index 0) as [->|Hne]; [reflexivity|].
  unfold result, get. cbv [bind this_buffer ret].
  fold (remap index (len (elems (buffer s0)))).
  rewrite range_test; [reflexivity|].
  cbn [s0 buffer elems new_array]. rewrite len_nil. unfold remap.
  destruct (Z.ltb_spec index 0); lia.
Qed.

(** ** The remaining methods *)

Section Observing.
Context {T : Type}.
Implicit Types (s : t T) (L data : elements T).

Lemma holds_nil c s : holds c s [] -> elems (buffer s) = [].
Proof.
  intros (_ & _ & front & back & HL & He & _).
  symmetry in HL. apply app_eq_nil in HL. destruct HL as (-> & ->).
  exact He.
Qed.

Lemma nth_last_elem L (d : option T) :
  L <> [] -> nth (length L - 1) L d = last L d.
Proof.
  intros H. rewrite (app_removelast_last d H) at 1 2.
  rewrite length_app, app_nth2 by (simpl; lia).
  simpl length. replace (_ - _)%nat with O by lia.
  reflexivity.
Qed.

Lemma get_run index s :
  get index s =
  (Normal
     (let j := remap index (len (elems (buffer s))) in
      if (j <? 0) || (j >? len (elems (buffer s))) then None
      else if len (elems (buffer s)) <? size s
           then array_get (buffer s) (Num j)
           else array_get (buffer s)
                  (num_rem (num_add (pos s) (Num j)) (Num (size s)))),
   s).
Proof.
  unfold get, remap. cbv [bind this_buffer this_size this_pos ret].
  cbv zeta.
  destruct ((_ <? 0) || _); [reflexivity|].
  destruct (_ <? size s); reflexivity.
Qed.

Lemma getFirst_holds c s L : holds c s L -> getFirst s = (Normal (hd None L), s).
Proof.
  intros H. destruct L as [|x L].
  - pose proof (holds_nil c s H) as He. destruct (holds_size _ _ _ H) as (Hs & Hc).
    unfold getFirst. rewrite get_run, He, Hs. cbv zeta.
    unfold remap. cbn [Z.ltb Z.compare len length Z.of_nat orb Z.gtb].
    destruct (Z.ltb_spec 0 c); [|lia].
    unfold array_get. cbn [Z.leb Z.compare Z.to_nat]. rewrite He. reflexivity.
  - unfold getFirst. rewrite (get_holds c s (x :: L) 0 H).
    + reflexivity.
    + unfold remap. cbn [Z.ltb Z.compare]. lens.
      pose proof (len_nonneg L). lia.
Qed.

Lemma getLast_holds c s L : holds c s L -> getLast s = (Normal (last L None), s).
Proof.
  intros H. destruct L as [|x L].
  - pose proof (holds_nil c s H) as He.
    unfold getLast. rewrite get_run, He. reflexivity.
  - unfold getLast. rewrite (get_holds c s (x :: L) (-1) H).
    + unfold remap. cbn [Z.ltb Z.compare]. do 2 f_equal.
      rewrite <- (nth_last_elem (x :: L) None) by discriminate.
      f_equal. unfold len. lia.
    + unfold remap. cbn [Z.ltb Z.compare]. lens.
      pose proof (len_nonneg L). lia.
Qed.

Lemma splice_first L :
  splice L 0 1 = (match L with [] => [] | x :: _ => [x] end, tl L).
Proof.
  destruct L as [|x L]; [reflexivity|].
  unfold splice, rel_index. cbn [Z.ltb Z.compare]. lens.
  pose proof (len_nonneg L).
  rewrite (Z.min_l 0) by lia. rewrite Z.sub_0_r.
  rewrite (Z.min_l (Z.max 1 0)) by lia. reflexivity.
Qed.

Lemma splice_last (R : elements T) (x : option T) :
  splice (R ++ [x]) (len R) 1 = ([x], R).
Proof.
  assert (Hl : len (R ++ [x]) = len R + 1) by (rewrite len_app; reflexivity).
  pose proof (len_nonneg R).
  unfold splice, rel_index. rewrite Hl.
  destruct (Z.ltb_spec (len R) 0); [lia|].
  rewrite (Z.min_l (len R)) by lia.
  replace (len R + 1 - len R) with 1 by lia.
  replace (Z.min (Z.max 1 0) 1) with 1 by reflexivity.
  unfold len. rewrite Nat2Z.id.
  rewrite skipn_long, Nat.sub_diag by lia. cbn [skipn Z.to_nat Pos.to_nat Pos.iter_op Nat.add firstn].
  rewrite firstn_short, firstn_all by lia.
  rewrite skipn_all2 by (rewrite length_app; simpl; lia).
  rewrite app_nil_r. reflexivity.
Qed.




Lemma last_suffix (L : elements T) (x : option T) (c : Z) :
  0 < c -> last (suffix c (L ++ [x])) None = x.
Proof.
  intros Hc. unfold suffix. rewrite length_app. simpl length.
  rewrite skipn_app.
  replace (length L + 1 - Z.to_nat c - length L)%nat with O by lia.
  cbn [skipn]. apply last_last.
Qed.

(** Whatever [pos] is, [toArray] cuts the array in two and swaps the
    pieces. *)
Lemma toArray_rotation s :
  exists k, (k <= length (elems (buffer s)))%nat /\
    toArray s =
    (Normal (skipn k (elems (buffer s)) ++ firstn k (elems (buffer s))), s).
Proof.
  pose proof (len_nonneg (elems (buffer s))) as H0.
  exists (Z.to_nat (rel_index (len (elems (buffer s))) (pos s))).
  assert (Hk : 0 <= rel_index (len (elems (buffer s))) (pos s)
               <= len (elems (buffer s))).
  { unfold rel_index. destruct (pos s) as [z|]; [|lia].
    destruct (Z.ltb_spec z 0); lia. }
  split; [unfold len in *; lia|].
  rewrite toArray_run. unfold slice_from, slice.
  replace (rel_index (len (elems (buffer s))) (Num 0)) with 0
    by (unfold rel_index; cbn [Z.ltb Z.compare]; lia).
  rewrite Z.sub_0_r. reflexivity.
Qed.

Lemma resize_size n s : 0 <= n -> size (after (resize n) s) = n.
Proof.
  intros Hn. unfold after, resize.
  destruct (Z.ltb_spec n 0); [lia|].
  destruct (Z.eqb_spec n 0); [subst; reflexivity|].
  cbv [bind this_size toArray this_buffer this_pos ret].
  destruct (negb (n =? size s)); [|reflexivity].
  rewrite fromArray_false_normal. reflexivity.
Qed.

(** [fromArray(data, true)] on any instance. *)
Lemma fromArray_true_holds data s :
  0 < len data -> holds (len data) (after (fromArray data true) s) data.
Proof.
  intros Hn. rewrite fromArray_after.
  pose proof (resize_size (len data) s (len_nonneg data)) as Hs.
  assert (Hc : 0 < size (after (resize (len data)) s)) by lia.
  pose proof (fromArray_false_holds data _ Hc) as H.
  rewrite Hs in H. rewrite suffix_all in H by lia. exact H.
Qed.

Lemma fromArray_true_content data s :
  size (after (fromArray data true) s) = len data /\
  len (elems (buffer (after (fromArray data true) s))) = len data /\
  toArray (after (fromArray data true) s)
  = (Normal data, after (fromArray data true) s).
Proof.
  destruct data as [|x data].
  - repeat split.
  - assert (Hn : 0 < len (x :: data))
      by (rewrite len_cons; pose proof (len_nonneg data); lia).
    pose proof (fromArray_true_holds (x :: data) s Hn) as H.
    split; [apply (holds_size _ _ _ H)|].
    split; [apply (holds_len _ _ _ H)|apply (toArray_holds _ _ _ H)].
Qed.

Lemma fromArray_normal data rsz s :
  fromArray data rsz s = (Normal tt, after (fromArray data rsz) s).
Proof.
  unfold after, fromArray, bind. destruct rsz.
  - rewrite resize_normal by apply len_nonneg.
    rewrite fromArray_false_normal. reflexivity.
  - cbn [ret]. rewrite fromArray_false_normal. reflexivity.
Qed.

Lemma reachable_size_nonneg s : reachable s -> 0 <= size s.
Proof.
  intros Hr. apply reachable_invariant in Hr.
  destruct Hr as [(L & H)|(Hz & _)]; [|lia].
  destruct (holds_size _ _ _ H). lia.
Qed.

End Observing.

(** X9.  On a reachable instance of capacity at least 1 with content [L],
    [add(items)] ends normally, keeps the capacity, and leaves as content
    the last [capacity] elements of [L] followed by the items. *)
Theorem add_appends_and_overwrites {T} (s : t T) (L : elements T) (items : list T) :
  reachable s -> 0 < size s -> result toArray s = Normal L ->
  result (add items) s = Normal tt /\
  result getSize (after (add items) s) = Normal (size s) /\
  result toArray (after (add items) s)
  = Normal (suffix (size s) (L ++ map Some items)).
Proof.
  intros Hr Hc Hto.
  pose proof (add_holds _ _ _ items (reachable_holds s L Hr Hc Hto)) as H.
  split; [apply add_result|]. unfold result.
  rewrite (toArray_holds _ _ _ H). cbn [fst]. split; [|reflexivity].
  unfold getSize, this_size. cbn [fst]. f_equal. apply (holds_size _ _ _ H).
Qed.

Lemma add_appends_and_overwrites_witness :
  result (add [4; 5])
    (after (add [1; 2; 3]) {| buffer := new_array []; size := 3; pos := Num 0 |})
  = Normal tt /\
  result getSize
    (after (add [4; 5])
       (after (add [1; 2; 3]) {| buffer := new_array []; size := 3; pos := Num 0 |}))
  = Normal 3 /\
  result toArray
    (after (add [4; 5])
       (after (add [1; 2; 3]) {| buffer := new_array []; size := 3; pos := Num 0 |}))
  = Normal [Some 3; Some 4; Some 5].
Proof.
  apply (add_appends_and_overwrites
           (after (add [1; 2; 3])
              {| buffer := new_array []; size := 3; pos := Num 0 |})
           [Some 1; Some 2; Some 3] [4; 5]).
  - apply reach_add, (reach_new 3). reflexivity.
  - cbn. lia.
  - reflexivity.
Defined.

(** X10.  On a reachable instance of capacity at least 1, [getFirst()] is
    the first and [getLast()] the last element of [toArray()], and both are
    [undefined] when the buffer is empty; the instance is left alone. *)
Theorem getFirst_getLast_of_content {T} (s : t T) (L : elements T) :
  reachable s -> 0 < size s -> result toArray s = Normal L ->
  getFirst s = (Normal (hd None L), s) /\
  getLast s = (Normal (last L None), s).
Proof.
  intros Hr Hc Hto. pose proof (reachable_holds s L Hr Hc Hto) as H.
  split; [apply (getFirst_holds _ _ _ H)|apply (getLast_holds _ _ _ H)].
Qed.

Lemma getFirst_getLast_of_content_witness :
  getFirst (after (add [1; 2; 3; 4]) {| buffer := new_array []; size := 3; pos := Num 0 |})
  = (Normal (Some 2),
     after (add [1; 2; 3; 4]) {| buffer := new_array []; size := 3; pos := Num 0 |}) /\
  getLast (after (add [1; 2; 3; 4]) {| buffer := new_array []; size := 3; pos := Num 0 |})
  = (Normal (Some 4),
     after (add [1; 2; 3; 4]) {| buffer := new_array []; size := 3; pos := Num 0 |}).
Proof.
  apply (getFirst_getLast_of_content
           (after (add [1; 2; 3; 4])
              {| buffer := new_array []; size := 3; pos := Num 0 |})
           [Some 2; Some 3; Some 4]).
  - apply reach_add, (reach_new 3). reflexivity.
  - cbn. lia.
  - reflexivity.
Defined.

(** X11.  On a reachable instance of capacity at least 1 with content [L],
    [removeFirst()] returns the first element of [L] ([undefined] when [L]
    is empty), leaves the rest of [L] as the content and keeps the
    capacity. *)
Theorem removeFirst_takes_oldest {T} (s : t T) (L : elements T) :
  reachable s -> 0 < size s -> result toArray s = Normal L ->
  result removeFirst s = Normal (hd None L) /\
  result toArray (after removeFirst s) = Normal (tl L) /\
  result getSize (after removeFirst s) = Normal (size s).
Proof.
  intros Hr Hc Hto. pose proof (reachable_holds s L Hr Hc Hto) as H.
  assert (Hj : 0 <= remap 0 (len L) <= len L).
  { unfold remap. cbn [Z.ltb Z.compare]. pose proof (len_nonneg L). lia. }
  pose proof (remove_holds _ s L 0 1 H Hj) as Hrm.
  unfold remap in Hrm. cbn [Z.ltb Z.compare] in Hrm.
  rewrite splice_first in Hrm. cbn [fst snd] in Hrm.
  rewrite removeFirst_after. unfold result, after, removeFirst, bind.
  rewrite Hrm. cbn [fst snd ret].
  split; [destruct L; reflexivity|].
  pose proof (fromArray_false_holds (tl L) s Hc) as H'.
  rewrite suffix_all in H'.
  - rewrite (toArray_holds _ _ _ H'). cbn [fst]. split; [reflexivity|].
    unfold getSize, this_size. cbn [fst]. f_equal. apply (holds_size _ _ _ H').
  - destruct (holds_len _ _ _ H) as (_ & Hle).
    destruct L; cbn [tl]; lens; lia.
Qed.

Lemma removeFirst_takes_oldest_witness :
  result removeFirst
    (after (add [1; 2; 3; 4]) {| buffer := new_array []; size := 3; pos := Num 0 |})
  = Normal (Some 2) /\
  result toArray
    (after removeFirst
       (after (add [1; 2; 3; 4]) {| buffer := new_array []; size := 3; pos := Num 0 |}))
  = Normal [Some 3; Some 4] /\
  result getSize
    (after removeFirst
       (after (add [1; 2; 3; 4]) {| buffer := new_array []; size := 3; pos := Num 0 |}))
  = Normal 3.
Proof.
  apply (removeFirst_takes_oldest
           (after (add [1; 2; 3; 4])
              {| buffer := new_array []; size := 3; pos := Num 0 |})
           [Some 2; Some 3; Some 4]).
  - apply reach_add, (reach_new 3). reflexivity.
  - cbn. lia.
  - reflexivity.
Defined.

(** X12.  On a reachable instance of capacity at least 1 with content [L],
    [removeLast()] returns the last element of [L] ([undefined] when [L] is
    empty), leaves [L] without its last element as the content and keeps
    the capacity. *)
Theorem removeLast_takes_newest {T} (s : t T) (L : elements T) :
  reachable s -> 0 < size s -> result toArray s = Normal L ->
  result removeLast s = Normal (last L None) /\
  result toArray (after removeLast s) = Normal (removelast L) /\
  result getSize (after removeLast s) = Normal (size s).
Proof.
  intros Hr Hc Hto. pose proof (reachable_holds s L Hr Hc Hto) as H.
  destruct (holds_len _ _ _ H) as (Hlen & Hle).
  assert (Hcase : L = [] \/ L <> []) by (destruct L; [left|right]; congruence).
  destruct Hcase as [->|Hne].
  - assert (Hrm : remove (-1) 1 s = (Normal [], s)).
    { unfold remove. cbv [bind this_buffer ret].
      fold (remap (-1) (len (elems (buffer s)))).
      rewrite range_test; [reflexivity|]. rewrite Hlen. left. reflexivity. }
    rewrite removeLast_after. unfold result, after, removeLast, bind.
    rewrite Hrm. cbn [fst snd ret nth last removelast].
    rewrite (toArray_holds _ _ _ H). cbn [fst].
    repeat split.
  - set (R := removelast L). set (x := last L None).
    assert (HL : L = R ++ [x]) by (apply app_removelast_last, Hne).
    assert (HlenL : len L = len R + 1) by (rewrite HL at 1; rewrite len_app; reflexivity).
    pose proof (len_nonneg R) as HR.
    assert (Hj : 0 <= remap (-1) (len L) <= len L).
    { unfold remap. cbn [Z.ltb Z.compare]. lia. }
    pose proof (remove_holds _ s L (-1) 1 H Hj) as Hrm.
    replace (remap (-1) (len L)) with (len R) in Hrm
      by (unfold remap; cbn [Z.ltb Z.compare]; lia).
    rewrite HL in Hrm at 1 2. rewrite splice_last in Hrm. cbn [fst snd] in Hrm.
    rewrite removeLast_after. unfold result, after, removeLast, bind.
    rewrite Hrm. cbn [fst snd ret nth].
    split; [reflexivity|].
    pose proof (fromArray_false_holds R s Hc) as H'.
    rewrite suffix_all in H' by lia.
    rewrite (toArray_holds _ _ _ H'). cbn [fst]. split; [reflexivity|].
    unfold getSize, this_size. cbn [fst]. f_equal. apply (holds_size _ _ _ H').
Qed.

Lemma removeLast_takes_newest_witness :
  result removeLast
    (after (add [1; 2; 3; 4]) {| buffer := new_array []; size := 3; pos := Num 0 |})
  = Normal (Some 4) /\
  result toArray
    (after removeLast
       (after (add [1; 2; 3; 4]) {| buffer := new_array []; size := 3; pos := Num 0 |}))
  = Normal [Some 2; Some 3] /\
  result getSize
    (after removeLast
       (after (add [1; 2; 3; 4]) {| buffer := new_array []; size := 3; pos := Num 0 |}))
  = Normal 3.
Proof.
  apply (removeLast_takes_newest
           (after (add [1; 2; 3; 4])
              {| buffer := new_array []; size := 3; pos := Num 0 |})
           [Some 2; Some 3; Some 4]).
  - apply reach_add, (reach_new 3). reflexivity.
  - cbn. lia.
  - reflexivity.
Defined.

(** X13.  [fromArray(data, true)] on any instance ends normally, sets the
    capacity to the length of [data] and the content to [data], and leaves
    the buffer full. *)
Theorem fromArray_with_resize {T} (s : t T) (data : elements T) :
  result (fromArray data true) s = Normal tt /\
  result getSize (after (fromArray data true) s) = Normal (len data) /\
  result toArray (after (fromArray data true) s) = Normal data /\
  result isFull (after (fromArray data true) s) = Normal true.
Proof.
  split; [unfold result; rewrite fromArray_normal; reflexivity|].
  destruct (fromArray_true_content data s) as (Hs & Hl & Hto).
  unfold result. rewrite Hto.
  unfold getSize, this_size, isFull. cbv [bind this_buffer this_size ret].
  cbn [fst]. rewrite Hs, Hl, Z.eqb_refl. repeat split.
Qed.

(** X14.  [fromArray(data)] without resize, on any instance of capacity at
    least 1, keeps the capacity and makes the last [capacity] elements of
    [data] the content: older elements of a longer [data] are dropped. *)
Theorem fromArray_keeps_last {T} (s : t T) (data : elements T) :
  0 < size s ->
  result (fromArray data false) s = Normal tt /\
  result getSize (after (fromArray data false) s) = Normal (size s) /\
  result toArray (after (fromArray data false) s)
  = Normal (suffix (size s) data).
Proof.
  intros Hc. split; [unfold result; rewrite fromArray_normal; reflexivity|].
  pose proof (fromArray_false_holds data s Hc) as H.
  change (after (fromArray data false) s) with (after (fromArray_false data) s).
  unfold result. rewrite (toArray_holds _ _ _ H).
  unfold getSize, this_size. cbn [fst].
  split; [|reflexivity]. f_equal. apply (holds_size _ _ _ H).
Qed.

Lemma fromArray_keeps_last_witness :
  result (fromArray [Some 1; Some 2; Some 3] false)
    {| buffer := new_array [Some 9]; size := 2; pos := Num 1 |} = Normal tt /\
  result getSize
    (after (fromArray [Some 1; Some 2; Some 3] false)
       {| buffer := new_array [Some 9]; size := 2; pos := Num 1 |}) = Normal 2 /\
  result toArray
    (after (fromArray [Some 1; Some 2; Some 3] false)
       {| buffer := new_array [Some 9]; size := 2; pos := Num 1 |})
  = Normal [Some 2; Some 3].
Proof.
  apply (fromArray_keeps_last
           {| buffer := new_array [Some 9]; size := 2; pos := Num 1 |}
           [Some 1; Some 2; Some 3]).
  cbn. lia.
Defined.

(** X15.  The static [RingBuffer.fromArray(data, size)] throws the
    constructor's [RangeError] for a negative [size]; otherwise it returns
    a reachable instance whose capacity is [size], or the length of [data]
    when [size] is 0, and whose content is the last [capacity] elements of
    [data]. *)
Theorem fromArray_static_builds {T} (data : elements T) (sz : Z) :
  (sz < 0 -> fromArray_static data sz = Throw negative_size) /\
  (0 <= sz ->
   exists s,
     fromArray_static data sz = Normal s /\
     reachable s /\
     result getSize s = Normal (if sz =? 0 then len data else sz) /\
     result toArray s
     = Normal (suffix (if sz =? 0 then len data else sz) data)).
Proof.
  split.
  - intros Hn. unfold fromArray_static, constructor.
    destruct (Z.ltb_spec sz 0); [reflexivity|lia].
  - intros Hn. unfold fromArray_static.
    set (s0 := {| buffer := @new_array T []; size := sz; pos := Num 0 |}).
    assert (Hnew : constructor sz = Normal s0).
    { unfold constructor. destruct (Z.ltb_spec sz 0); [lia|reflexivity]. }
    rewrite Hnew, fromArray_normal.
    exists (after (fromArray data (sz =? 0)) s0).
    split; [reflexivity|].
    split; [apply reach_fromArray, (reach_new sz), Hnew|].
    destruct (Z.eqb_spec sz 0) as [E|E].
    + destruct (fromArray_true_content data s0) as (Hs & _ & Hto).
      rewrite suffix_all by lia. unfold result. rewrite Hto.
      unfold getSize, this_size. cbn [fst]. rewrite Hs. split; reflexivity.
    + assert (Hc : 0 < size s0) by (cbn; lia).
      pose proof (fromArray_false_holds data s0 Hc) as H.
      change (after (fromArray data false) s0)
        with (after (fromArray_false data) s0).
      unfold result.
      rewrite (toArray_holds _ _ _ H). unfold getSize, this_size. cbn [fst].
      split; [|reflexivity]. f_equal. apply (holds_size _ _ _ H).
Qed.

(** X16.  On a reachable instance, [clear()] leaves exactly the instance
    that [new RingBuffer(size)] makes for the current capacity, and
    [resize(0)] leaves exactly the instance [new RingBuffer(0)] makes. *)
Theorem clear_gives_new_instance {T} (s : t T) :
  reachable s ->
  constructor (size s) = Normal (after clear s) /\
  constructor 0 = Normal (after (resize 0) s).
Proof.
  intros Hr. pose proof (reachable_size_nonneg s Hr) as Hs.
  split; [|reflexivity].
  unfold constructor. destruct (Z.ltb_spec (size s) 0); [lia|reflexivity].
Qed.

Lemma clear_gives_new_instance_witness :
  constructor
    (size (after (add [1; 2; 3]) {| buffer := new_array []; size := 2; pos := Num 0 |}))
  = Normal
      (after clear
         (after (add [1; 2; 3]) {| buffer := new_array []; size := 2; pos := Num 0 |})) /\
  constructor 0
  = Normal
      (after (resize 0)
         (after (add [1; 2; 3]) {| buffer := new_array []; size := 2; pos := Num 0 |})).
Proof.
  apply (clear_gives_new_instance
           (after (add [1; 2; 3])
              {| buffer := new_array []; size := 2; pos := Num 0 |})).
  apply reach_add, (reach_new 2). reflexivity.
Defined.

(** X17.  On every instance, whatever its fields hold, [toArray()] returns
    a rearrangement of the stored array: nothing is lost or duplicated.  So
    [getBufferLength()] is the length of [toArray()], [isEmpty()] tells
    whether [toArray()] is empty, and [isFull()] whether its length is the
    capacity. *)
Theorem toArray_rearranges {T} (s : t T) :
  exists L,
    toArray s = (Normal L, s) /\
    Permutation (elems (buffer s)) L /\
    result getBufferLength s = Normal (len L) /\
    result isEmpty s = Normal (match L with [] => true | _ :: _ => false end) /\
    result isFull s = Normal (len L =? size s).
Proof.
  destruct (toArray_rotation s) as (k & Hk & Hto).
  set (e := elems (buffer s)) in *.
  exists (skipn k e ++ firstn k e). split; [exact Hto|].
  assert (Hlen : len (skipn k e ++ firstn k e) = len e).
  { unfold len. rewrite length_app, length_skipn, length_firstn. lia. }
  split.
  - rewrite <- (firstn_skipn k e) at 1. apply Permutation_app_comm.
  - unfold result, getBufferLength, isEmpty, isFull.
    cbv [bind this_buffer this_size ret]. cbn [fst]. fold e.
    rewrite Hlen. repeat split.
    destruct (skipn k e ++ firstn k e) as [|y r] eqn:E.
    + rewrite <- Hlen. reflexivity.
    + rewrite <- Hlen, len_cons. f_equal.
      pose proof (len_nonneg r). apply Z.eqb_neq. lia.
Qed.


(** X19.  On a reachable instance of capacity at least 1, the item passed
    last to [add] is what [getLast()] returns afterwards. *)
Theorem getLast_after_add {T} (s : t T) (items : list T) (x : T) :
  reachable s -> 0 < size s ->
  result getLast (after (add (items ++ [x])) s) = Normal (Some x).
Proof.
  intros Hr Hc. apply reachable_invariant in Hr.
  destruct Hr as [(L & H)|(Hz & _)]; [|lia].
  pose proof (add_holds _ _ _ (items ++ [x]) H) as H'.
  unfold result. rewrite (getLast_holds _ _ _ H'). cbn [fst]. f_equal.
  rewrite map_app, app_assoc. cbn [map].
  apply last_suffix, Hc.
Qed.

Lemma getLast_after_add_witness :
  result getLast
    (after (add ([4; 5] ++ [6]))
       (after (add [1; 2; 3]) {| buffer := new_array []; size := 2; pos := Num 0 |}))
  = Normal (Some 6).
Proof.
  apply (getLast_after_add
           (after (add [1; 2; 3])
              {| buffer := new_array []; size := 2; pos := Num 0 |})
           [4; 5] 6).
  - apply reach_add, (reach_new 2). reflexivity.
  - cbn. lia.
Defined.



(** X21.  The capacity of a reachable instance is never negative, and a
    reachable instance of capacity 0 stores at most one element, with [pos]
    equal to 0 while it stores none and [NaN] once it stores one. *)
Theorem reachable_zero_capacity {T} (s : t T) :
  reachable s ->
  0 <= size s /\
  (size s = 0 ->
   (elems (buffer s) = [] /\ pos s = Num 0) \/
   (len (elems (buffer s)) = 1 /\ pos s = NaN)).
Proof.
  intros Hr. split; [apply reachable_size_nonneg, Hr|].
  intros Hz. apply reachable_invariant in Hr.
  destruct Hr as [(L & H)|(_ & [Hl|(x & He & Hp)])].
  - destruct (holds_size _ _ _ H). lia.
  - left. exact Hl.
  - right. rewrite He. split; [reflexivity|exact Hp].
Qed.

Lemma reachable_zero_capacity_witness :
  0 <= size (after (add [1; 2]) {| buffer := new_array []; size := 0; pos := Num 0 |}) /\
  (size (after (add [1; 2]) {| buffer := new_array []; size := 0; pos := Num 0 |}) = 0 ->
   (elems (buffer (after (add [1; 2])
                     {| buffer := new_array []; size := 0; pos := Num 0 |})) = [] /\
    pos (after (add [1; 2]) {| buffer := new_array []; size := 0; pos := Num 0 |})
    = Num 0) \/
   (len (elems (buffer (after (add [1; 2])
                          {| buffer := new_array []; size := 0; pos := Num 0 |}))) = 1 /\
    pos (after (add [1; 2]) {| buffer := new_array []; size := 0; pos := Num 0 |})
    = NaN)).
Proof.
  apply (reachable_zero_capacity
           (after (add [1; 2]) {| buffer := new_array []; size := 0; pos := Num 0 |})).
  apply reach_add, (reach_new 0). reflexivity.
Defined.

(** X22.  Passing several items to one [add] call is the same as passing
    them in two calls: [add] of [items1] followed by [items2] leaves the
    instance that [add(items1)] and then [add(items2)] leave, on every
    instance. *)
Theorem add_splits {T} (s : t T) (items1 items2 : list T) :
  add (items1 ++ items2) s = bind (add items1) (fun _ => add items2) s.
Proof.
  unfold bind. rewrite (add_normal items1 s), (add_normal (items1 ++ items2) s),
    (add_normal items2), add_app. reflexivity.
Qed.
